(** * TrackBase: the media track base type of WebCore (html/track/TrackBase.cpp)

    A shallow embedding of [TrackBase.cpp]: the BCP 47 language tag validator
    [isValidBCP47LanguageTag], the constructor, [setLanguage], the track-list
    back-reference and the kind mutator of [MediaTrackBase], followed by the
    properties of these operations. *)

From Stdlib Require Import ZArith List Bool Ascii String Sorted Lia.
From Stdlib Require Import Numbers.DecimalString Numbers.DecimalPos Numbers.DecimalN.
Import ListNotations.

(** ** WTF strings *)

Module WTF.

(** A [UChar] is a 16-bit code unit.  The validator only compares code units
    with ASCII constants, so nothing below depends on the upper bound. *)
Definition UChar := Z.

Definition chr (a : ascii) : UChar := Z.of_N (N_of_ascii a).

Fixpoint lit (s : string) : list UChar :=
  match s with
  | EmptyString => []
  | String a rest => chr a :: lit rest
  end.

(** An [AtomString] is either the null string (what a default-constructed
    [AtomString] member holds) or a sequence of code units; [emptyAtom()] is
    the non-null string of length zero. *)
Inductive AtomString : Type :=
| nullAtom
| Atom (chars : list UChar).

Definition characters (s : AtomString) : list UChar :=
  match s with
  | nullAtom => []
  | Atom chars => chars
  end.

Definition emptyAtom : AtomString := Atom [].

(** An ASCII literal ["..."_s]. *)
Definition literal (s : string) : AtomString := Atom (lit s).

Definition length (s : AtomString) : nat := List.length (characters s).

Definition isEmpty (s : AtomString) : bool := Nat.eqb (length s) 0.

(** [String::operator[]]: the code unit at an index, and 0 outside the
    string. *)
Definition charAt (s : AtomString) (i : nat) : UChar := nth i (characters s) 0%Z.

Definition contains (s : AtomString) (c : UChar) : bool :=
  existsb (Z.eqb c) (characters s).

(** [makeString(a, b, ...)]: the concatenation of its arguments, never null. *)
Definition makeString (parts : list AtomString) : AtomString :=
  Atom (List.concat (List.map characters parts)).

(** [AtomString::number]: the decimal digits of an unsigned integer. *)
Definition number (n : N) : AtomString :=
  literal (NilZero.string_of_uint (N.to_uint n)).

(** Modelled from the spec: [isASCIIAlpha] of wtf/ASCIICType.h, which is not
    among the sources; the spec calls its argument "an ASCII letter". *)
Definition isASCIIAlpha (c : UChar) : bool :=
  ((65 <=? c) && (c <=? 90) || (97 <=? c) && (c <=? 122))%Z.

Definition isASCIIDigit (c : UChar) : bool :=
  ((48 <=? c) && (c <=? 57))%Z.

(** Modelled from the spec: [isASCIIAlphanumeric] of wtf/ASCIICType.h, which
    is not among the sources; the spec calls its argument "ASCII
    alphanumeric". *)
Definition isASCIIAlphanumeric (c : UChar) : bool :=
  isASCIIAlpha c || isASCIIDigit c.

End WTF.

Import WTF.

(** ** The language tag validator *)

(** The body of the suffix loop's test: [isASCIIAlphanumeric(c) || c == '-']. *)
Definition suffixCharOk (c : UChar) : bool :=
  isASCIIAlphanumeric c || (c =? chr "-")%Z.

(** The loop [for (; nextCharIndexToCheck < length; ++nextCharIndexToCheck)].
    [remaining] is [length - nextCharIndexToCheck], the number of iterations
    left: it is zero exactly when the loop test fails, and then the function
    returns true. *)
Fixpoint suffixLoop (remaining : nat) (languageTag : AtomString)
    (nextCharIndexToCheck : nat) : bool :=
  match remaining with
  | O => true
  | S remaining' =>
      let c := charAt languageTag nextCharIndexToCheck in
      if suffixCharOk c
      then suffixLoop remaining' languageTag (S nextCharIndexToCheck)
      else false
  end.

Definition scanSuffix (languageTag : AtomString) (nextCharIndexToCheck : nat) : bool :=
  suffixLoop (length languageTag - nextCharIndexToCheck) languageTag nextCharIndexToCheck.

Definition isValidBCP47LanguageTag (languageTag : AtomString) : bool :=
  let length := length languageTag in
  if (length <? 2) || (100 <? length) then false else
  let firstChar := charAt languageTag 0 in
  if negb (isASCIIAlpha firstChar) then false else
  let secondChar := charAt languageTag 1 in
  if length =? 2 then isASCIIAlpha secondChar else
  let grandFatheredIrregularOrPrivateUse :=
    ((firstChar =? chr "i")%Z || (firstChar =? chr "x")%Z) && (secondChar =? chr "-")%Z in
  if negb grandFatheredIrregularOrPrivateUse then
    if negb (isASCIIAlpha secondChar) then false else
    if length =? 3 then isASCIIAlpha (charAt languageTag 2) else
    if isASCIIAlpha (charAt languageTag 2) then
      if (charAt languageTag 3 =? chr "-")%Z
      then scanSuffix languageTag 4
      else false
    else if (charAt languageTag 2 =? chr "-")%Z
    then scanSuffix languageTag 3
    else false
  else scanSuffix languageTag 2.

(** ** Process-wide state and the objects a track refers to *)

(** The owning context and the enclosing track list are objects of the host;
    a track only holds a reference to them, modelled as a handle. *)
Definition ScriptExecutionContext := nat.
Definition TrackListBase := nat.

(** [TrackID] is an unsigned 64-bit integer. *)
Definition TrackID := N.

(** The track types of TrackBase.h. *)
Inductive Type_ : Type := BaseTrack | TextTrack | AudioTrack | VideoTrack.

(** The arguments of [addConsoleMessage] that this file uses, among the
    values of JavaScriptCore's ConsoleTypes.h. *)
Inductive MessageSource : Type := JS | Network | Rendering | Media | Other.
Inductive MessageLevel : Type := Log | Warning | Error | Debug | Info.

Record ConsoleMessage : Type := mkConsoleMessage {
  messageContext : ScriptExecutionContext;
  messageSource : MessageSource;
  messageLevel : MessageLevel;
  messageText : AtomString
}.

Record Logger : Type := mkLogger { loggerEnabled : bool }.

(** The state the functions of this file share: the static counter
    [s_uniqueId], the static [nullLogger()], and the console messages posted
    so far, oldest first. *)
Record Process : Type := mkProcess {
  s_uniqueId : Z;
  nullLogger : option Logger;
  consoleMessages : list ConsoleMessage
}.

(** [static int s_uniqueId = 0;] in a process that has not run any of this
    code yet. *)
Definition initialProcess : Process :=
  {| s_uniqueId := 0; nullLogger := None; consoleMessages := [] |}.

Definition INT_MAX : Z := 2147483647.
Definition INT_MIN : Z := -2147483648.

(** The value an [int] holds after an arithmetic result [z].  Signed overflow
    is undefined in C++; the model takes the two's complement result. *)
Definition wrapInt (z : Z) : Z := ((z + 2147483648) mod 4294967296 - 2147483648)%Z.

(** Functions that read and write the process state. *)
Definition M (A : Type) : Type := Process -> A * Process.

Definition ret {A : Type} (a : A) : M A := fun p => (a, p).

Definition bind {A B : Type} (m : M A) (f : A -> M B) : M B :=
  fun p => let (a, p') := m p in f a p'.

Notation "x <- m ;; k" := (bind m (fun x => k))
  (at level 61, m at next level, right associativity).
Notation "m ;;; k" := (bind m (fun _ => k))
  (at level 61, right associativity).

(** [++s_uniqueId] *)
Definition preIncrementUniqueId : M Z :=
  fun p =>
    let v := wrapInt (s_uniqueId p + 1) in
    (v, {| s_uniqueId := v; nullLogger := nullLogger p;
           consoleMessages := consoleMessages p |}).

(** [context->addConsoleMessage(source, level, message)] *)
Definition addConsoleMessage (context : ScriptExecutionContext)
    (source : MessageSource) (level : MessageLevel) (message : AtomString) : M unit :=
  fun p =>
    (tt, {| s_uniqueId := s_uniqueId p; nullLogger := nullLogger p;
            consoleMessages :=
              consoleMessages p ++ [mkConsoleMessage context source level message] |}).

(** The constructor's use of [nullLogger()]: created disabled on first use,
    then shared. *)
Definition sharedNullLogger : M Logger :=
  fun p =>
    match nullLogger p with
    | Some logger => (logger, p)
    | None =>
        let logger := mkLogger false in
        (logger, {| s_uniqueId := s_uniqueId p; nullLogger := Some logger;
                    consoleMessages := consoleMessages p |})
    end.

(** ** TrackBase *)

Record TrackBase : Type := mkTrackBase {
  m_scriptExecutionContext : option ScriptExecutionContext;
  m_uniqueId : Z;
  m_id : AtomString;
  m_trackId : TrackID;
  m_label : AtomString;
  m_language : AtomString;
  m_validBCP47Language : AtomString;
  m_type : Type_;
  m_trackList : option TrackListBase;
  m_logger : option Logger
}.

Definition scriptExecutionContext (t : TrackBase) : option ScriptExecutionContext :=
  m_scriptExecutionContext t.

Definition set_m_language (t : TrackBase) (v : AtomString) : TrackBase :=
  mkTrackBase (m_scriptExecutionContext t) (m_uniqueId t) (m_id t) (m_trackId t)
    (m_label t) v (m_validBCP47Language t) (m_type t) (m_trackList t) (m_logger t).

Definition set_m_validBCP47Language (t : TrackBase) (v : AtomString) : TrackBase :=
  mkTrackBase (m_scriptExecutionContext t) (m_uniqueId t) (m_id t) (m_trackId t)
    (m_label t) (m_language t) v (m_type t) (m_trackList t) (m_logger t).

Definition set_m_trackList (t : TrackBase) (v : option TrackListBase) : TrackBase :=
  mkTrackBase (m_scriptExecutionContext t) (m_uniqueId t) (m_id t) (m_trackId t)
    (m_label t) (m_language t) (m_validBCP47Language t) (m_type t) v (m_logger t).

Definition set_m_scriptExecutionContext (t : TrackBase)
    (v : option ScriptExecutionContext) : TrackBase :=
  mkTrackBase v (m_uniqueId t) (m_id t) (m_trackId t)
    (m_label t) (m_language t) (m_validBCP47Language t) (m_type t) (m_trackList t)
    (m_logger t).

(** [TrackBase::TrackBase].  The members without an initializer start as the
    null string and the null pointer; [ASSERT(type != BaseTrack)] is a
    debug-only check. *)
Definition newTrackBase (context : option ScriptExecutionContext) (type : Type_)
    (id : option AtomString) (trackId : TrackID) (label language : AtomString)
    : M TrackBase :=
  uniqueId <- preIncrementUniqueId ;;
  let validBCP47Language :=
    if isValidBCP47LanguageTag language then language else nullAtom in
  logger <- sharedNullLogger ;;
  ret {| m_scriptExecutionContext := context;
         m_uniqueId := uniqueId;
         m_id := match id with Some id' => id' | None => number trackId end;
         m_trackId := trackId;
         m_label := label;
         m_language := language;
         m_validBCP47Language := validBCP47Language;
         m_type := type;
         m_trackList := None;
         m_logger := Some logger |}.

(** [TrackBase::didMoveToNewDocument], given the context document of the new
    document. *)
Definition didMoveToNewDocument (t : TrackBase)
    (contextDocument : ScriptExecutionContext) : M TrackBase :=
  ret (set_m_scriptExecutionContext t (Some contextDocument)).

Definition setTrackList (t : TrackBase) (trackList : TrackListBase) : M TrackBase :=
  ret (set_m_trackList t (Some trackList)).

Definition clearTrackList (t : TrackBase) : M TrackBase :=
  ret (set_m_trackList t None).

Definition trackList (t : TrackBase) : option TrackListBase := m_trackList t.

Definition nullCharacterMessage : AtomString :=
  literal "The language contains a null character and is not a valid BCP 47 language tag.".

Definition invalidLanguageMessage (language : AtomString) : AtomString :=
  makeString [literal "The language '"; language;
              literal "' is not a valid BCP 47 language tag."].

Section SetLanguage.

(** [setLanguage] over the function it calls to validate a non-empty tag. *)
Variable validator : AtomString -> bool.

Definition setLanguageWith (t : TrackBase) (language : AtomString) : M TrackBase :=
  let t := set_m_language t language in
  if isEmpty language || validator language then
    ret (set_m_validBCP47Language t language)
  else
    let t := set_m_validBCP47Language t emptyAtom in
    match scriptExecutionContext t with
    | None => ret t
    | Some context =>
        let message :=
          if contains language 0%Z
          then nullCharacterMessage
          else invalidLanguageMessage language in
        addConsoleMessage context Rendering Warning message ;;;
        ret t
    end.

End SetLanguage.

(** [TrackBase::setLanguage] *)
Definition setLanguage : TrackBase -> AtomString -> M TrackBase :=
  setLanguageWith isValidBCP47LanguageTag.

(** ** MediaTrackBase *)

Record MediaTrackBase : Type := mkMediaTrackBase {
  base : TrackBase;
  m_kind : AtomString
}.

Definition newMediaTrackBase (context : option ScriptExecutionContext) (type : Type_)
    (id : option AtomString) (trackId : TrackID) (label language : AtomString)
    : M MediaTrackBase :=
  t <- newTrackBase context type id trackId label language ;;
  ret {| base := t; m_kind := nullAtom |}.

Section Kind.

(** The pure virtual [isValidKind] that each concrete track type supplies. *)
Variable isValidKind : AtomString -> bool.

Definition setKindInternal (t : MediaTrackBase) (kind : AtomString) : M MediaTrackBase :=
  if isValidKind kind
  then ret {| base := base t; m_kind := kind |}
  else ret {| base := base t; m_kind := emptyAtom |}.

Definition setKind (t : MediaTrackBase) (kind : AtomString) : M MediaTrackBase :=
  setKindInternal t kind.

End Kind.

(** ** Sequences of constructions *)

Record TrackArguments : Type := mkTrackArguments {
  arg_context : option ScriptExecutionContext;
  arg_type : Type_;
  arg_id : option AtomString;
  arg_trackId : TrackID;
  arg_label : AtomString;
  arg_language : AtomString
}.

Definition construct (a : TrackArguments) : M TrackBase :=
  newTrackBase (arg_context a) (arg_type a) (arg_id a) (arg_trackId a)
    (arg_label a) (arg_language a).

(** The tracks constructed one after the other from a list of constructor
    arguments, in the order of their construction. *)
Fixpoint constructAll (args : list TrackArguments) : M (list TrackBase) :=
  match args with
  | [] => ret []
  | a :: rest =>
      t <- construct a ;;
      ts <- constructAll rest ;;
      ret (t :: ts)
  end.

(** ** The simplified BCP 47 grammar, as the specification words it *)

Definition asciiLetter (c : UChar) : Prop :=
  (chr "A" <= c <= chr "Z" \/ chr "a" <= c <= chr "z")%Z.

Definition asciiAlphanumericOrHyphen (c : UChar) : Prop :=
  asciiLetter c \/ (chr "0" <= c <= chr "9")%Z \/ c = chr "-".

(** Every character from index [k] onward is ASCII alphanumeric or '-'. *)
Definition suffixFrom (s : AtomString) (k : nat) : Prop :=
  forall i, k <= i < length s -> asciiAlphanumericOrHyphen (charAt s i).

Definition grandfatheredPrefix (s : AtomString) : Prop :=
  (charAt s 0 = chr "i" \/ charAt s 0 = chr "x") /\ charAt s 1 = chr "-".

Definition simplifiedBCP47Grammar (s : AtomString) : Prop :=
  2 <= length s <= 100 /\
  asciiLetter (charAt s 0) /\
  ((length s = 2 /\ asciiLetter (charAt s 1))
   \/ (length s <> 2 /\ grandfatheredPrefix s /\ suffixFrom s 2)
   \/ (length s <> 2 /\ ~ grandfatheredPrefix s /\
       asciiLetter (charAt s 1) /\
       (length s = 3 -> asciiLetter (charAt s 2)) /\
       (3 < length s ->
          (asciiLetter (charAt s 2) /\ charAt s 3 = chr "-" /\ suffixFrom s 4)
          \/ (charAt s 2 = chr "-" /\ suffixFrom s 3)))).

(** ** Invariant, reachable tracks and sample inputs *)

(** The validated language is empty or an accepted tag, and it is empty
    whenever the raw language is. *)
Definition languageInvariant (t : TrackBase) : Prop :=
  (isEmpty (m_validBCP47Language t) = true
   \/ isValidBCP47LanguageTag (m_validBCP47Language t) = true)
  /\ (isEmpty (m_language t) = true -> isEmpty (m_validBCP47Language t) = true).

(** The tracks a program can hold: constructed, then changed by any of the
    mutators of this file. *)
Inductive Reachable : TrackBase -> Prop :=
| reach_new context type id trackId label language p :
    Reachable (fst (newTrackBase context type id trackId label language p))
| reach_setLanguage t language p :
    Reachable t -> Reachable (fst (setLanguage t language p))
| reach_setTrackList t trackList p :
    Reachable t -> Reachable (fst (setTrackList t trackList p))
| reach_clearTrackList t p :
    Reachable t -> Reachable (fst (clearTrackList t p))
| reach_didMoveToNewDocument t contextDocument p :
    Reachable t -> Reachable (fst (didMoveToNewDocument t contextDocument p)).

(** A track and constructor arguments to run the operations on. *)
Definition sampleTrack (context : option ScriptExecutionContext) : TrackBase :=
  fst (newTrackBase context AudioTrack None 7%N (literal "main") (literal "en")
         initialProcess).

Definition someArguments : TrackArguments :=
  {| arg_context := None; arg_type := AudioTrack; arg_id := None;
     arg_trackId := 0%N; arg_label := emptyAtom; arg_language := emptyAtom |}.

(** ** The opaque root *)

(** A [WebCoreOpaqueRoot] wraps the address of the object that keeps a
    wrapper alive. *)
Definition Address := nat.

Record WebCoreOpaqueRoot : Type := mkWebCoreOpaqueRoot { rootPointer : Address }.

Section OpaqueRoot.

(** [TrackListBase::opaqueRoot], which the track list supplies. *)
Variable listOpaqueRoot : TrackListBase -> WebCoreOpaqueRoot.

(** [TrackBase::opaqueRoot], for the track [t] stored at the address [this]. *)
Definition opaqueRoot (this : Address) (t : TrackBase) : WebCoreOpaqueRoot :=
  match trackList t with
  | Some list => listOpaqueRoot list
  | None => mkWebCoreOpaqueRoot this
  end.

End OpaqueRoot.

(** ** Sequences of mutator calls *)

(** [Mutated t t']: [t'] is [t] after some calls of the mutators of
    [TrackBase], each in some process state. *)
Inductive Mutated : TrackBase -> TrackBase -> Prop :=
| mutated_none t : Mutated t t
| mutated_setLanguage t t' language p :
    Mutated t t' -> Mutated t (fst (setLanguage t' language p))
| mutated_setTrackList t t' list p :
    Mutated t t' -> Mutated t (fst (setTrackList t' list p))
| mutated_clearTrackList t t' p :
    Mutated t t' -> Mutated t (fst (clearTrackList t' p))
| mutated_didMoveToNewDocument t t' contextDocument p :
    Mutated t t' -> Mutated t (fst (didMoveToNewDocument t' contextDocument p)).

(** The string [s] followed by the code units [extra]. *)
Definition append (s : AtomString) (extra : list UChar) : AtomString :=
  Atom (characters s ++ extra).

(** ** Properties of the validator *)

Ltac chr_values :=
  repeat match goal with
  | |- context [chr ?a] =>
      let v := eval vm_compute in (chr a) in change (chr a) with v
  | H : context [chr ?a] |- _ =>
      let v := eval vm_compute in (chr a) in change (chr a) with v in H
  end.

Lemma isASCIIAlpha_spec (c : UChar) : isASCIIAlpha c = true <-> asciiLetter c.
Proof.
  unfold isASCIIAlpha, asciiLetter. chr_values.
  rewrite orb_true_iff, !andb_true_iff, !Z.leb_le. tauto.
Qed.

Lemma suffixCharOk_spec (c : UChar) :
  suffixCharOk c = true <-> asciiAlphanumericOrHyphen c.
Proof.
  unfold suffixCharOk, isASCIIAlphanumeric, asciiAlphanumericOrHyphen, isASCIIDigit.
  rewrite !orb_true_iff, isASCIIAlpha_spec, andb_true_iff, !Z.leb_le, Z.eqb_eq.
  chr_values. tauto.
Qed.

Lemma suffixLoop_spec (s : AtomString) :
  forall remaining k,
    k + remaining = length s ->
    suffixLoop remaining s k = true <->
    (forall i, k <= i < length s -> asciiAlphanumericOrHyphen (charAt s i)).
Proof.
  induction remaining as [|r IH]; intros k Hk; simpl.
  - split; [intros _ i Hi; lia | reflexivity].
  - destruct (suffixCharOk (charAt s k)) eqn:Hc.
    + rewrite IH by lia. apply suffixCharOk_spec in Hc.
      split; intros H i Hi.
      * destruct (Nat.eq_dec i k) as [->|Hne]; [exact Hc | apply H; lia].
      * apply H; lia.
    + split; [discriminate|]. intros H.
      assert (Hok : asciiAlphanumericOrHyphen (charAt s k)) by (apply H; lia).
      apply suffixCharOk_spec in Hok. congruence.
Qed.

Lemma scanSuffix_spec (s : AtomString) (k : nat) :
  k <= length s -> scanSuffix s k = true <-> suffixFrom s k.
Proof.
  intros Hk. unfold scanSuffix, suffixFrom. apply suffixLoop_spec. lia.
Qed.

Lemma grandfathered_spec (s : AtomString) :
  (((charAt s 0 =? chr "i")%Z || (charAt s 0 =? chr "x")%Z)
     && (charAt s 1 =? chr "-")%Z) = true
  <-> grandfatheredPrefix s.
Proof.
  unfold grandfatheredPrefix.
  rewrite andb_true_iff, orb_true_iff, !Z.eqb_eq. tauto.
Qed.

Lemma isValidBCP47LanguageTag_length (s : AtomString) :
  length s < 2 \/ 100 < length s -> isValidBCP47LanguageTag s = false.
Proof.
  intros H. unfold isValidBCP47LanguageTag.
  destruct (Nat.ltb_spec (length s) 2), (Nat.ltb_spec 100 (length s));
    simpl; try reflexivity; lia.
Qed.

Lemma isValidBCP47LanguageTag_iff (s : AtomString) :
  isValidBCP47LanguageTag s = true <-> simplifiedBCP47Grammar s.
Proof.
  unfold isValidBCP47LanguageTag, simplifiedBCP47Grammar.
  destruct (Nat.ltb_spec (length s) 2) as [Hlo|Hlo]; simpl.
  { split; [discriminate | lia]. }
  destruct (Nat.ltb_spec 100 (length s)) as [Hhi|Hhi]; simpl.
  { split; [discriminate | lia]. }
  destruct (isASCIIAlpha (charAt s 0)) eqn:H0; simpl.
  2:{ split; [discriminate|]. intros (_ & Ha & _).
      apply isASCIIAlpha_spec in Ha. congruence. }
  apply isASCIIAlpha_spec in H0.
  destruct (Nat.eqb_spec (length s) 2) as [H2|H2].
  { rewrite isASCIIAlpha_spec. split.
    - intros H1. repeat split; try lia; auto.
    - intros (_ & _ & [(_ & H1) | [(Hn & _) | (Hn & _)]]); [exact H1 | lia | lia]. }
  pose proof (grandfathered_spec s) as Hg.
  destruct (((charAt s 0 =? chr "i")%Z || (charAt s 0 =? chr "x")%Z)
              && (charAt s 1 =? chr "-")%Z) eqn:Eg; simpl.
  { assert (G : grandfatheredPrefix s) by (apply Hg; reflexivity).
    rewrite scanSuffix_spec by lia. split.
    - intros Hs. repeat split; try lia; auto.
    - intros (_ & _ & [(Hn & _) | [(_ & _ & Hs) | (_ & Hng & _)]]);
        [lia | exact Hs | contradiction]. }
  assert (G : ~ grandfatheredPrefix s).
  { intros G. apply Hg in G. discriminate. }
  destruct (isASCIIAlpha (charAt s 1)) eqn:H1; simpl.
  2:{ split; [discriminate|].
      intros (_ & _ & [(Hn & _) | [(_ & Hgf & _) | (_ & _ & Ha & _)]]);
        [lia | contradiction | apply isASCIIAlpha_spec in Ha; congruence]. }
  apply isASCIIAlpha_spec in H1.
  destruct (Nat.eqb_spec (length s) 3) as [H3|H3].
  { rewrite isASCIIAlpha_spec. split.
    - intros Ha. split; [lia|]. split; [assumption|].
      right; right. repeat split; auto. intros; lia.
    - intros (_ & _ & [(Hn & _) | [(_ & Hgf & _) | (_ & _ & _ & Ha & _)]]);
        [lia | contradiction | auto]. }
  destruct (isASCIIAlpha (charAt s 2)) eqn:Ha2.
  - apply isASCIIAlpha_spec in Ha2.
    destruct (Z.eqb_spec (charAt s 3) (chr "-")) as [Hd|Hd].
    + rewrite scanSuffix_spec by lia. split.
      * intros Hs. split; [lia|]. split; [assumption|].
        right; right. do 3 (split; [assumption|]). split; [intros; lia|].
        intros _. left. auto.
      * intros (_ & _ & [(Hn & _) | [(_ & Hgf & _) | (_ & _ & _ & _ & Hx)]]);
          [lia | contradiction |].
        destruct Hx as [(_ & _ & Hs) | (Hd2 & _)]; [lia | exact Hs |].
        exfalso. unfold asciiLetter in Ha2. rewrite Hd2 in Ha2.
        chr_values. lia.
    + split; [discriminate|].
      intros (_ & _ & [(Hn & _) | [(_ & Hgf & _) | (_ & _ & _ & _ & Hx)]]);
        [lia | contradiction |].
      destruct Hx as [(_ & Hd' & _) | (Hd2 & _)]; [lia | contradiction |].
      exfalso. unfold asciiLetter in Ha2. rewrite Hd2 in Ha2.
      chr_values. lia.
  - assert (Hn2 : ~ asciiLetter (charAt s 2)).
    { intros Ha. apply isASCIIAlpha_spec in Ha. congruence. }
    destruct (Z.eqb_spec (charAt s 2) (chr "-")) as [Hd|Hd].
    + rewrite scanSuffix_spec by lia. split.
      * intros Hs. split; [lia|]. split; [assumption|].
        right; right. do 3 (split; [assumption|]). split; [intros; lia|].
        intros _. right. auto.
      * intros (_ & _ & [(Hn & _) | [(_ & Hgf & _) | (_ & _ & _ & _ & Hx)]]);
          [lia | contradiction |].
        destruct Hx as [(Ha & _) | (_ & Hs)]; [lia | contradiction | exact Hs].
    + split; [discriminate|].
      intros (_ & _ & [(Hn & _) | [(_ & Hgf & _) | (_ & _ & _ & _ & Hx)]]);
        [lia | contradiction |].
      destruct Hx as [(Ha & _) | (Hd' & _)]; [lia | contradiction | contradiction].
Qed.

(** C1: the validator accepts exactly the strings of the simplified BCP 47
    grammar of the specification (length 2 to 100, a leading ASCII letter,
    then the two-letter, grandfathered/private-use, three-letter and
    extended cases, each followed by ASCII alphanumerics and hyphens); in
    particular it rejects every string shorter than 2 or longer than 100. *)
Theorem isValidBCP47LanguageTag_grammar :
  forall s : AtomString,
    (isValidBCP47LanguageTag s = true <-> simplifiedBCP47Grammar s)
    /\ (length s < 2 \/ 100 < length s -> isValidBCP47LanguageTag s = false).
Proof.
  intros s. split.
  - apply isValidBCP47LanguageTag_iff.
  - apply isValidBCP47LanguageTag_length.
Qed.

(** C6: the validator's answers on the tags the specification lists. *)
Theorem isValidBCP47LanguageTag_examples :
  isValidBCP47LanguageTag (literal "en") = true
  /\ isValidBCP47LanguageTag (literal "e") = false
  /\ isValidBCP47LanguageTag (literal "eng") = true
  /\ isValidBCP47LanguageTag (literal "en-US") = true
  /\ isValidBCP47LanguageTag (literal "i-klingon") = true
  /\ isValidBCP47LanguageTag (literal "x-custom") = true
  /\ isValidBCP47LanguageTag (literal "1n") = false
  /\ isValidBCP47LanguageTag (literal "en_US") = false.
Proof. repeat split; reflexivity. Qed.

(** Every character of an accepted tag is ASCII alphanumeric or '-'. *)
Lemma isValidBCP47LanguageTag_characters (s : AtomString) :
  isValidBCP47LanguageTag s = true ->
  forall i, i < length s -> asciiAlphanumericOrHyphen (charAt s i).
Proof.
  intros Hv. apply isValidBCP47LanguageTag_iff in Hv.
  destruct Hv as (Hlen & H0 & Hcases).
  assert (Hletter : forall c, asciiLetter c -> asciiAlphanumericOrHyphen c)
    by (intros c Hc; left; exact Hc).
  assert (Hdash : forall c, c = chr "-" -> asciiAlphanumericOrHyphen c)
    by (intros c Hc; right; right; exact Hc).
  intros i Hi.
  destruct Hcases as [(H2 & H1) | [(_ & (_ & Hd) & Hs) | (Hn2 & _ & H1 & H3 & H4)]].
  - destruct i as [|[|i]]; [auto | auto | lia].
  - destruct i as [|[|i]]; [auto | auto | apply Hs; lia].
  - destruct i as [|[|i]]; [auto | auto |].
    destruct (Nat.eq_dec (length s) 3) as [E3|E3].
    + destruct i; [auto | lia].
    + destruct H4 as [(Ha & Hd & Hs) | (Hd & Hs)]; [lia | |].
      * destruct i as [|[|i]]; [auto | auto | apply Hs; lia].
      * destruct i as [|i]; [auto | apply Hs; lia].
Qed.

Lemma contains_charAt (s : AtomString) (c : UChar) :
  contains s c = true -> exists i, i < length s /\ charAt s i = c.
Proof.
  unfold contains, length, charAt. intros H.
  apply existsb_exists in H. destruct H as (x & Hin & Hx).
  apply Z.eqb_eq in Hx. subst x.
  destruct (In_nth _ _ 0%Z Hin) as (i & Hi & Hnth). eauto.
Qed.

(** No string with a null character is accepted. *)
Lemma isValidBCP47LanguageTag_null (s : AtomString) :
  contains s 0%Z = true -> isValidBCP47LanguageTag s = false.
Proof.
  intros Hc. destruct (isValidBCP47LanguageTag s) eqn:Hv; [|reflexivity].
  destruct (contains_charAt _ _ Hc) as (i & Hi & H0).
  pose proof (isValidBCP47LanguageTag_characters s Hv i Hi) as Hok.
  rewrite H0 in Hok. unfold asciiAlphanumericOrHyphen, asciiLetter in Hok.
  chr_values. lia.
Qed.

Lemma isValidBCP47LanguageTag_nonempty (s : AtomString) :
  isValidBCP47LanguageTag s = true -> isEmpty s = false.
Proof.
  intros Hv. unfold isEmpty. apply Nat.eqb_neq. intros H0.
  rewrite isValidBCP47LanguageTag_length in Hv by lia. discriminate.
Qed.

(** ** Properties of the track operations *)

Lemma newTrackBase_eq context type id trackId label language p :
  newTrackBase context type id trackId label language p =
  (let uniqueId := wrapInt (s_uniqueId p + 1) in
   {| m_scriptExecutionContext := context;
      m_uniqueId := uniqueId;
      m_id := match id with Some id' => id' | None => number trackId end;
      m_trackId := trackId;
      m_label := label;
      m_language := language;
      m_validBCP47Language :=
        if isValidBCP47LanguageTag language then language else nullAtom;
      m_type := type;
      m_trackList := None;
      m_logger := Some (match nullLogger p with
                        | Some logger => logger
                        | None => mkLogger false
                        end) |},
   {| s_uniqueId := wrapInt (s_uniqueId p + 1);
      nullLogger := Some (match nullLogger p with
                          | Some logger => logger
                          | None => mkLogger false
                          end);
      consoleMessages := consoleMessages p |}).
Proof.
  unfold newTrackBase, bind, ret, preIncrementUniqueId, sharedNullLogger. simpl.
  destruct (nullLogger p); reflexivity.
Qed.

(** A track constructed without an explicit id is named after its track
    identifier, and takes the language it was given when that is a valid
    tag. *)
Example sampleTrack_fields :
  m_id (sampleTrack None) = literal "7"
  /\ m_uniqueId (sampleTrack None) = 1%Z
  /\ m_validBCP47Language (sampleTrack None) = literal "en".
Proof. repeat split. Qed.

Lemma newTrackBase_languageInvariant context type id trackId label language p :
  languageInvariant (fst (newTrackBase context type id trackId label language p)).
Proof.
  rewrite newTrackBase_eq. unfold languageInvariant. simpl.
  destruct (isValidBCP47LanguageTag language) eqn:Hv.
  - split; [right; exact Hv|]. intros He.
    rewrite (isValidBCP47LanguageTag_nonempty _ Hv) in He. discriminate.
  - split; [left; reflexivity | reflexivity].
Qed.

Lemma setLanguage_languageInvariant t language p :
  languageInvariant (fst (setLanguage t language p)).
Proof.
  unfold setLanguage, setLanguageWith, languageInvariant.
  destruct (isEmpty language) eqn:He; simpl.
  - split; [left; exact He | intros _; exact He].
  - destruct (isValidBCP47LanguageTag language) eqn:Hv; simpl.
    + split; [right; exact Hv | intros H; congruence].
    + destruct (m_scriptExecutionContext t); simpl;
        (split; [left; reflexivity | reflexivity]).
Qed.

(** C2: after construction and after every call to setLanguage, the
    validated language of the track is empty or accepted by the validator,
    and it is empty whenever the raw language is empty. *)
Theorem validated_language_invariant :
  (forall context type id trackId label language p,
      languageInvariant (fst (newTrackBase context type id trackId label language p)))
  /\ (forall t language p, languageInvariant (fst (setLanguage t language p))).
Proof.
  split.
  - intros. apply newTrackBase_languageInvariant.
  - intros. apply setLanguage_languageInvariant.
Qed.

Lemma Reachable_languageInvariant t : Reachable t -> languageInvariant t.
Proof.
  induction 1 as [| | t l p H IH | t p H IH | t c p H IH].
  - apply newTrackBase_languageInvariant.
  - apply setLanguage_languageInvariant.
  - exact IH.
  - exact IH.
  - exact IH.
Qed.

Lemma setLanguage_invalid t language p :
  isEmpty language = false ->
  isValidBCP47LanguageTag language = false ->
  setLanguage t language p =
  match scriptExecutionContext t with
  | None => (set_m_validBCP47Language (set_m_language t language) emptyAtom, p)
  | Some context =>
      (set_m_validBCP47Language (set_m_language t language) emptyAtom,
       {| s_uniqueId := s_uniqueId p; nullLogger := nullLogger p;
          consoleMessages :=
            consoleMessages p ++
            [mkConsoleMessage context Rendering Warning
               (if contains language 0%Z
                then nullCharacterMessage
                else invalidLanguageMessage language)] |})
  end.
Proof.
  intros He Hv. unfold setLanguage, setLanguageWith, scriptExecutionContext.
  rewrite He, Hv. simpl.
  destruct (m_scriptExecutionContext t); reflexivity.
Qed.

Lemma contains_nonempty (s : AtomString) (c : UChar) :
  contains s c = true -> isEmpty s = false.
Proof.
  intros H. destruct (contains_charAt _ _ H) as (i & Hi & _).
  unfold isEmpty. apply Nat.eqb_neq. lia.
Qed.

(** C3: setLanguage with a string that contains a null character stores it
    as the raw language, empties the validated language and, when a context
    is attached, posts exactly the null-character message (and nothing when
    none is); no such string is accepted by the validator. *)
Theorem setLanguage_null_character :
  forall t language p,
    contains language 0%Z = true ->
    isValidBCP47LanguageTag language = false
    /\ m_language (fst (setLanguage t language p)) = language
    /\ m_validBCP47Language (fst (setLanguage t language p)) = emptyAtom
    /\ consoleMessages (snd (setLanguage t language p)) =
       match scriptExecutionContext t with
       | Some context =>
           consoleMessages p ++
           [mkConsoleMessage context Rendering Warning
              (literal "The language contains a null character and is not a valid BCP 47 language tag.")]
       | None => consoleMessages p
       end.
Proof.
  intros t language p Hc.
  pose proof (isValidBCP47LanguageTag_null _ Hc) as Hv.
  pose proof (contains_nonempty _ _ Hc) as He.
  rewrite (setLanguage_invalid t language p He Hv).
  split; [exact Hv|].
  destruct (scriptExecutionContext t); simpl; rewrite ?Hc; auto.
Qed.

Lemma setLanguage_null_character_witness :
  let language := Atom [101; 110; 0; 85]%Z in
  contains language 0%Z = true
  /\ m_validBCP47Language (fst (setLanguage (sampleTrack (Some 1)) language initialProcess))
     = emptyAtom
  /\ consoleMessages (snd (setLanguage (sampleTrack (Some 1)) language initialProcess)) =
     [mkConsoleMessage 1 Rendering Warning
        (literal "The language contains a null character and is not a valid BCP 47 language tag.")].
Proof.
  intros language.
  pose proof (setLanguage_null_character (sampleTrack (Some 1)) language initialProcess
                eq_refl) as (_ & _ & Hvalid & Hconsole).
  split; [reflexivity|]. split; [exact Hvalid | exact Hconsole].
Defined.

(** C4: setLanguage with a non-empty string that the validator rejects and
    that has no null character stores it as the raw language, empties the
    validated language and, when a context is attached, posts exactly
    "The language '<tag>' is not a valid BCP 47 language tag." with the
    original string for <tag>; without a context nothing is posted. *)
Theorem setLanguage_invalid_tag :
  forall t language p,
    isEmpty language = false ->
    isValidBCP47LanguageTag language = false ->
    contains language 0%Z = false ->
    m_language (fst (setLanguage t language p)) = language
    /\ m_validBCP47Language (fst (setLanguage t language p)) = emptyAtom
    /\ consoleMessages (snd (setLanguage t language p)) =
       match scriptExecutionContext t with
       | Some context =>
           consoleMessages p ++
           [mkConsoleMessage context Rendering Warning
              (Atom (lit "The language '" ++ characters language
                       ++ lit "' is not a valid BCP 47 language tag."))]
       | None => consoleMessages p
       end.
Proof.
  intros t language p He Hv Hc.
  rewrite (setLanguage_invalid t language p He Hv).
  destruct (scriptExecutionContext t); simpl; rewrite ?Hc; auto.
Qed.

Lemma setLanguage_invalid_tag_witness :
  let language := literal "not valid!!" in
  m_language (fst (setLanguage (sampleTrack (Some 1)) language initialProcess)) = language
  /\ m_validBCP47Language (fst (setLanguage (sampleTrack (Some 1)) language initialProcess))
     = emptyAtom
  /\ consoleMessages (snd (setLanguage (sampleTrack (Some 1)) language initialProcess)) =
     [mkConsoleMessage 1 Rendering Warning
        (literal "The language 'not valid!!' is not a valid BCP 47 language tag.")]
  /\ consoleMessages (snd (setLanguage (sampleTrack None) language initialProcess)) = [].
Proof.
  intros language.
  pose proof (setLanguage_invalid_tag (sampleTrack (Some 1)) language initialProcess
                eq_refl eq_refl eq_refl) as (Hraw & Hvalid & Hconsole).
  pose proof (setLanguage_invalid_tag (sampleTrack None) language initialProcess
                eq_refl eq_refl eq_refl) as (_ & _ & Hnone).
  split; [exact Hraw|]. split; [exact Hvalid|]. split; [exact Hconsole | exact Hnone].
Defined.

(** C5: setLanguage with an empty string sets the raw and the validated
    language to that empty string and leaves the process, hence the console,
    as it was, with or without a context; the outcome is the same whatever
    the validator would answer, so the empty case does not consult it. *)
Theorem setLanguage_empty :
  forall (validator : AtomString -> bool) t language p,
    isEmpty language = true ->
    setLanguageWith validator t language p = setLanguage t language p
    /\ m_language (fst (setLanguage t language p)) = language
    /\ m_validBCP47Language (fst (setLanguage t language p)) = language
    /\ isEmpty (m_language (fst (setLanguage t language p))) = true
    /\ isEmpty (m_validBCP47Language (fst (setLanguage t language p))) = true
    /\ snd (setLanguage t language p) = p.
Proof.
  intros validator t language p He. unfold setLanguage, setLanguageWith.
  rewrite He. simpl. rewrite He. repeat split.
Qed.

Lemma setLanguage_empty_witness :
  setLanguageWith (fun _ => false) (sampleTrack (Some 1)) emptyAtom initialProcess
  = setLanguage (sampleTrack (Some 1)) emptyAtom initialProcess
  /\ m_language (fst (setLanguage (sampleTrack (Some 1)) emptyAtom initialProcess))
     = emptyAtom
  /\ m_validBCP47Language (fst (setLanguage (sampleTrack (Some 1)) emptyAtom initialProcess))
     = emptyAtom
  /\ snd (setLanguage (sampleTrack (Some 1)) emptyAtom initialProcess) = initialProcess.
Proof.
  pose proof (setLanguage_empty (fun _ => false) (sampleTrack (Some 1)) emptyAtom
                initialProcess eq_refl) as (Hsame & Hraw & Hvalid & _ & _ & Hprocess).
  split; [exact Hsame|]. split; [exact Hraw|]. split; [exact Hvalid | exact Hprocess].
Defined.

Lemma newTrackBase_consoleMessages context type id trackId label language p :
  consoleMessages (snd (newTrackBase context type id trackId label language p))
  = consoleMessages p.
Proof. rewrite newTrackBase_eq. reflexivity. Qed.

(** C10: constructing a track with a non-empty language that the validator
    rejects keeps the language as the raw language, leaves the validated
    language empty and posts no console message, also when a context is
    attached. *)
Theorem newTrackBase_invalid_language_silent :
  forall context type id trackId label language p,
    isEmpty language = false ->
    isValidBCP47LanguageTag language = false ->
    let r := newTrackBase context type id trackId label language p in
    m_language (fst r) = language
    /\ isEmpty (m_validBCP47Language (fst r)) = true
    /\ scriptExecutionContext (fst r) = context
    /\ consoleMessages (snd r) = consoleMessages p.
Proof.
  intros context type id trackId label language p He Hv r. subst r.
  rewrite newTrackBase_eq. simpl. rewrite Hv. repeat split.
Qed.

Lemma newTrackBase_invalid_language_silent_witness :
  let r := newTrackBase (Some 1) TextTrack None 3%N (literal "captions")
             (literal "not valid!!") initialProcess in
  scriptExecutionContext (fst r) = Some 1
  /\ isEmpty (m_validBCP47Language (fst r)) = true
  /\ consoleMessages (snd r) = [].
Proof.
  intros r.
  pose proof (newTrackBase_invalid_language_silent (Some 1) TextTrack None 3%N
                (literal "captions") (literal "not valid!!") initialProcess
                eq_refl eq_refl) as (_ & Hvalid & Hcontext & Hconsole).
  split; [exact Hcontext|]. split; [exact Hvalid | exact Hconsole].
Defined.

(** C8: the kind mutator stores the kind when the track type's validity
    predicate accepts it and the empty string otherwise; either way the
    process, hence the console, is left as it was and the call returns
    normally. *)
Theorem setKind_valid_or_empty :
  forall (isValidKind : AtomString -> bool) t kind p,
    m_kind (fst (setKind isValidKind t kind p)) =
      (if isValidKind kind then kind else emptyAtom)
    /\ base (fst (setKind isValidKind t kind p)) = base t
    /\ snd (setKind isValidKind t kind p) = p
    /\ setKindInternal isValidKind t kind p = setKind isValidKind t kind p.
Proof.
  intros isValidKind t kind p. unfold setKind, setKindInternal, ret.
  destruct (isValidKind kind); repeat split.
Qed.

(** C9: after setTrackList(L) the track-list accessor returns L, whatever
    list the track referred to before, and after a following
    clearTrackList() it returns null; both calls accept every argument and
    leave the process, hence the console, as it was. *)
Theorem setTrackList_clearTrackList :
  forall t (L : TrackListBase) p,
    let r1 := setTrackList t L p in
    let r2 := clearTrackList (fst r1) (snd r1) in
    trackList (fst r1) = Some L
    /\ snd r1 = p
    /\ trackList (fst r2) = None
    /\ snd r2 = p.
Proof.
  intros t L p. unfold setTrackList, clearTrackList, trackList, ret. simpl.
  repeat split.
Qed.

(** ** Unique ids *)

Lemma wrapInt_in_range (z : Z) :
  (INT_MIN <= z <= INT_MAX)%Z -> wrapInt z = z.
Proof.
  unfold INT_MIN, INT_MAX, wrapInt. intros H.
  rewrite Z.mod_small by lia. lia.
Qed.

Lemma construct_uniqueId a p :
  m_uniqueId (fst (construct a p)) = wrapInt (s_uniqueId p + 1)
  /\ s_uniqueId (snd (construct a p)) = wrapInt (s_uniqueId p + 1).
Proof. unfold construct. rewrite newTrackBase_eq. split; reflexivity. Qed.

Lemma constructAll_cons a rest p :
  constructAll (a :: rest) p =
  (fst (construct a p) :: fst (constructAll rest (snd (construct a p))),
   snd (constructAll rest (snd (construct a p)))).
Proof.
  simpl. unfold bind, ret.
  destruct (construct a p) as [t p1]. simpl.
  destruct (constructAll rest p1) as [ts p2]. reflexivity.
Qed.

Lemma constructAll_app l1 l2 p :
  constructAll (l1 ++ l2) p =
  (fst (constructAll l1 p) ++ fst (constructAll l2 (snd (constructAll l1 p))),
   snd (constructAll l2 (snd (constructAll l1 p)))).
Proof.
  revert p. induction l1 as [|a l1 IH]; intros p.
  - simpl. unfold ret. simpl. destruct (constructAll l2 p); reflexivity.
  - rewrite <- app_comm_cons, !constructAll_cons, IH. reflexivity.
Qed.

(** While the counter stays below [INT_MAX], the k-th construction from a
    process whose counter is [c] gets the id [c + k]. *)
Lemma constructAll_ids args :
  forall p,
    (INT_MIN <= s_uniqueId p)%Z ->
    (s_uniqueId p + Z.of_nat (List.length args) <= INT_MAX)%Z ->
    map m_uniqueId (fst (constructAll args p)) =
      map (fun k => (s_uniqueId p + Z.of_nat k)%Z) (seq 1 (List.length args))
    /\ s_uniqueId (snd (constructAll args p)) =
       (s_uniqueId p + Z.of_nat (List.length args))%Z.
Proof.
  induction args as [|a rest IH]; intros p Hlo Hhi.
  - simpl. split; [reflexivity | lia].
  - rewrite constructAll_cons.
    destruct (construct_uniqueId a p) as (Hid & Hcounter).
    change (List.length (a :: rest)) with (S (List.length rest)) in *.
    rewrite wrapInt_in_range in Hid, Hcounter by lia.
    destruct (IH (snd (construct a p))) as (IHids & IHcounter);
      [lia | lia |].
    cbn [fst snd map seq]. rewrite Hid, IHids, IHcounter, Hcounter.
    split; [|lia]. f_equal.
    rewrite <- (seq_shift (List.length rest) 1), map_map.
    apply map_ext. intros k. lia.
Qed.

Lemma seq_from_sorted f :
  (forall i j, i < j -> (f i < f j)%Z) ->
  forall n start, StronglySorted Z.lt (map f (seq start n)).
Proof.
  intros Hf. induction n as [|n IH]; intros start; simpl.
  - constructor.
  - constructor; [apply IH|].
    apply Forall_forall. intros x Hx.
    apply in_map_iff in Hx. destruct Hx as (k & <- & Hk).
    apply in_seq in Hk. apply Hf. lia.
Qed.

Lemma sorted_NoDup (l : list Z) : StronglySorted Z.lt l -> NoDup l.
Proof.
  induction 1 as [|x l Hs IH Hall]; constructor; [|exact IH].
  intros Hin. rewrite Forall_forall in Hall. specialize (Hall x Hin). lia.
Qed.

(** The mutators leave the counter alone. *)
Lemma mutators_keep_s_uniqueId :
  (forall t language p, s_uniqueId (snd (setLanguage t language p)) = s_uniqueId p)
  /\ (forall t L p, s_uniqueId (snd (setTrackList t L p)) = s_uniqueId p)
  /\ (forall t p, s_uniqueId (snd (clearTrackList t p)) = s_uniqueId p)
  /\ (forall t d p, s_uniqueId (snd (didMoveToNewDocument t d p)) = s_uniqueId p)
  /\ (forall v t kind p, s_uniqueId (snd (setKind v t kind p)) = s_uniqueId p).
Proof.
  repeat split; intros; try reflexivity.
  - unfold setLanguage, setLanguageWith.
    destruct (isEmpty language || isValidBCP47LanguageTag language); [reflexivity|].
    destruct (scriptExecutionContext _); reflexivity.
  - unfold setKind, setKindInternal. destruct (v kind); reflexivity.
Qed.

(** C7, amended: for every sequence of at most 2^31 - 1 constructions in a
    process, the k-th track constructed gets the id k, so the ids strictly
    increase in the order of construction and none repeats, and the counter
    ends at the number of constructions. *)
Theorem uniqueId_strictly_increasing :
  forall args : list TrackArguments,
    (Z.of_nat (List.length args) <= INT_MAX)%Z ->
    let r := constructAll args initialProcess in
    map m_uniqueId (fst r) = map Z.of_nat (seq 1 (List.length args))
    /\ StronglySorted Z.lt (map m_uniqueId (fst r))
    /\ NoDup (map m_uniqueId (fst r))
    /\ s_uniqueId (snd r) = Z.of_nat (List.length args).
Proof.
  intros args Hlen r. subst r.
  destruct (constructAll_ids args initialProcess) as (Hids & Hcounter).
  { unfold INT_MIN. simpl. lia. }
  { simpl. lia. }
  assert (Hsorted : StronglySorted Z.lt (map m_uniqueId (fst (constructAll args initialProcess)))).
  { rewrite Hids. apply seq_from_sorted. intros i j Hij. simpl. lia. }
  split; [|split; [exact Hsorted | split; [apply sorted_NoDup, Hsorted|]]].
  - rewrite Hids. apply map_ext. intros k. reflexivity.
  - rewrite Hcounter. reflexivity.
Qed.

Lemma uniqueId_strictly_increasing_witness :
  let r := constructAll [someArguments; someArguments; someArguments] initialProcess in
  map m_uniqueId (fst r) = [1; 2; 3]%Z /\ s_uniqueId (snd r) = 3%Z.
Proof.
  intros r.
  assert (Hlen : (Z.of_nat (List.length [someArguments; someArguments; someArguments])
                  <= INT_MAX)%Z) by (vm_compute; discriminate).
  pose proof (uniqueId_strictly_increasing
                [someArguments; someArguments; someArguments] Hlen)
    as (Hids & _ & _ & Hcounter).
  split; [exact Hids | exact Hcounter].
Defined.

(** C7 as stated fails: of 2^31 constructions in one process, the first
    track gets the id 1 and the last one the id -2^31, which is smaller. *)
Lemma uniqueId_overflow_counterexample :
  let ids :=
    map m_uniqueId
      (fst (constructAll (repeat someArguments (Z.to_nat 2147483648)) initialProcess)) in
  nth 0 ids 0%Z = 1%Z
  /\ nth (Z.to_nat 2147483647) ids 0%Z = (-2147483648)%Z.
Proof.
  intros ids. subst ids.
  assert (E : exists m, Z.of_nat m = 2147483646%Z
                        /\ Z.to_nat 2147483647 = S m
                        /\ Z.to_nat 2147483648 = S m + 1).
  { exists (Z.to_nat 2147483646). lia. }
  destruct E as (m & Hm & E1 & E2). rewrite E1, E2. clear E1 E2.
  rewrite repeat_app, constructAll_app. cbn [fst].
  rewrite map_app.
  assert (Hlen : List.length (repeat someArguments (S m)) = S m)
    by apply repeat_length.
  change (repeat someArguments 1) with [someArguments].
  set (first := repeat someArguments (S m)) in *.
  destruct (constructAll_ids first initialProcess) as (Hids & Hcounter).
  { unfold INT_MIN. simpl. lia. }
  { rewrite Hlen. unfold INT_MAX. simpl s_uniqueId. lia. }
  rewrite Hlen in Hids, Hcounter.
  change (s_uniqueId initialProcess) with 0%Z in Hids, Hcounter.
  rewrite Hids. split.
  - cbn [seq map app nth]. reflexivity.
  - rewrite app_nth2; rewrite length_map, length_seq; [|lia].
    rewrite Nat.sub_diag.
    rewrite constructAll_cons. cbn [fst map nth].
    destruct (construct_uniqueId someArguments (snd (constructAll first initialProcess)))
      as (Hid & _).
    rewrite Hid, Hcounter.
    replace (0 + Z.of_nat (S m) + 1)%Z with 2147483648%Z by lia.
    reflexivity.
Qed.

(** ** Further properties of the validator *)

Lemma suffixFrom_forallb (s : AtomString) (k : nat) :
  suffixFrom s k <-> forallb suffixCharOk (skipn k (characters s)) = true.
Proof.
  unfold suffixFrom, length, charAt. rewrite forallb_forall. split.
  - intros H x Hin.
    destruct (In_nth _ _ 0%Z Hin) as (i & Hi & <-).
    rewrite length_skipn in Hi. rewrite nth_skipn.
    apply suffixCharOk_spec, H. lia.
  - intros H i Hi. apply suffixCharOk_spec.
    replace i with (k + (i - k)) by lia. rewrite <- nth_skipn.
    apply H, nth_In. rewrite length_skipn. lia.
Qed.

(** X1: an accepted tag has 2 to 100 code units, starts with an ASCII
    letter, and consists only of ASCII letters, digits and '-'. *)
Theorem accepted_tag_shape :
  forall s : AtomString,
    isValidBCP47LanguageTag s = true ->
    2 <= length s <= 100
    /\ isASCIIAlpha (charAt s 0) = true
    /\ forallb suffixCharOk (characters s) = true.
Proof.
  intros s Hv.
  pose proof (isValidBCP47LanguageTag_characters s Hv) as Hchars.
  apply isValidBCP47LanguageTag_iff in Hv. destruct Hv as (Hlen & H0 & _).
  split; [exact Hlen|]. split; [apply isASCIIAlpha_spec; exact H0|].
  change (characters s) with (skipn 0 (characters s)).
  apply suffixFrom_forallb. intros i Hi. apply Hchars. lia.
Qed.

Lemma accepted_tag_shape_witness :
  2 <= length (literal "zh-Hant-TW") <= 100
  /\ isASCIIAlpha (charAt (literal "zh-Hant-TW") 0) = true
  /\ forallb suffixCharOk (characters (literal "zh-Hant-TW")) = true.
Proof. exact (accepted_tag_shape (literal "zh-Hant-TW") eq_refl). Defined.

Lemma forallb_charAt (f : UChar -> bool) (s : AtomString) (i : nat) :
  forallb f (characters s) = true -> i < length s -> f (charAt s i) = true.
Proof.
  intros H Hi. rewrite forallb_forall in H. apply H, nth_In. exact Hi.
Qed.

Lemma letter_not_hyphen (c : UChar) : asciiLetter c -> c <> chr "-".
Proof. unfold asciiLetter. chr_values. lia. Qed.

(** X2: a string made only of ASCII letters is accepted exactly when it has
    two or three of them. *)
Theorem letters_only_tag :
  forall s : AtomString,
    forallb isASCIIAlpha (characters s) = true ->
    (isValidBCP47LanguageTag s = true <-> length s = 2 \/ length s = 3).
Proof.
  intros s Hall.
  assert (L : forall i, i < length s -> asciiLetter (charAt s i)).
  { intros i Hi. apply isASCIIAlpha_spec, forallb_charAt; assumption. }
  rewrite isValidBCP47LanguageTag_iff. unfold simplifiedBCP47Grammar. split.
  - intros (Hlen & _ & [(H2 & _) | [(_ & (_ & Hd) & _) | (_ & _ & _ & _ & H4)]]).
    + left; exact H2.
    + exfalso. apply (letter_not_hyphen (charAt s 1)); [apply L; lia | exact Hd].
    + destruct (Nat.le_gt_cases (length s) 3) as [Hle|Hgt]; [lia|].
      exfalso. destruct (H4 Hgt) as [(_ & Hd & _) | (Hd & _)].
      * apply (letter_not_hyphen (charAt s 3)); [apply L; lia | exact Hd].
      * apply (letter_not_hyphen (charAt s 2)); [apply L; lia | exact Hd].
  - intros Hlen. split; [lia|]. split; [apply L; lia|].
    destruct Hlen as [H2|H3].
    + left. split; [exact H2 | apply L; lia].
    + right; right. split; [lia|]. split.
      * intros (_ & Hd).
        apply (letter_not_hyphen (charAt s 1)); [apply L; lia | exact Hd].
      * split; [apply L; lia|]. split; [intros _; apply L; lia | intros; lia].
Qed.

Lemma letters_only_tag_witness :
  (isValidBCP47LanguageTag (literal "deu") = true
   <-> length (literal "deu") = 2 \/ length (literal "deu") = 3)
  /\ (isValidBCP47LanguageTag (literal "root") = true
      <-> length (literal "root") = 2 \/ length (literal "root") = 3).
Proof.
  split.
  - exact (letters_only_tag (literal "deu") eq_refl).
  - exact (letters_only_tag (literal "root") eq_refl).
Defined.

(** X3: a string whose second code unit is '-' is accepted exactly when it
    starts with a lower-case 'i' or 'x', has 3 to 100 code units, and
    continues from the third one with ASCII letters, digits and '-' only. *)
Theorem single_letter_subtag :
  forall s : AtomString,
    charAt s 1 = chr "-" ->
    (isValidBCP47LanguageTag s = true <->
     (charAt s 0 = chr "i" \/ charAt s 0 = chr "x")
     /\ 3 <= length s <= 100
     /\ forallb suffixCharOk (skipn 2 (characters s)) = true).
Proof.
  intros s Hd.
  assert (Hnl : ~ asciiLetter (charAt s 1)).
  { intros Hl. exact (letter_not_hyphen _ Hl Hd). }
  rewrite <- suffixFrom_forallb, isValidBCP47LanguageTag_iff.
  unfold simplifiedBCP47Grammar. split.
  - intros (Hlen & _ & [(_ & Hl) | [(Hn2 & (Hix & _) & Hs) | (_ & _ & Hl & _)]]);
      [contradiction | | contradiction].
    split; [exact Hix|]. split; [lia | exact Hs].
  - intros (Hix & Hlen & Hs). split; [lia|]. split.
    + unfold asciiLetter. destruct Hix as [-> | ->]; chr_values; lia.
    + right; left. split; [lia|]. split; [split; assumption | exact Hs].
Qed.

Lemma single_letter_subtag_witness :
  (isValidBCP47LanguageTag (literal "x-custom") = true <->
   (charAt (literal "x-custom") 0 = chr "i" \/ charAt (literal "x-custom") 0 = chr "x")
   /\ 3 <= length (literal "x-custom") <= 100
   /\ forallb suffixCharOk (skipn 2 (characters (literal "x-custom"))) = true)
  /\ (isValidBCP47LanguageTag (literal "X-custom") = true <->
      (charAt (literal "X-custom") 0 = chr "i" \/ charAt (literal "X-custom") 0 = chr "x")
      /\ 3 <= length (literal "X-custom") <= 100
      /\ forallb suffixCharOk (skipn 2 (characters (literal "X-custom"))) = true).
Proof.
  split.
  - exact (single_letter_subtag (literal "x-custom") eq_refl).
  - exact (single_letter_subtag (literal "X-custom") eq_refl).
Defined.

Lemma length_append (s : AtomString) (extra : list UChar) :
  length (append s extra) = length s + List.length extra.
Proof. unfold append, length. simpl. apply length_app. Qed.

Lemma charAt_append (s : AtomString) (extra : list UChar) (i : nat) :
  i < length s -> charAt (append s extra) i = charAt s i.
Proof. intros Hi. unfold append, charAt. simpl. apply app_nth1. exact Hi. Qed.

Lemma suffixFrom_append (s : AtomString) (extra : list UChar) (k : nat) :
  k <= length s ->
  suffixFrom (append s extra) k <->
  suffixFrom s k /\ forallb suffixCharOk extra = true.
Proof.
  intros Hk. rewrite !suffixFrom_forallb. unfold append. simpl.
  rewrite skipn_app, forallb_app, andb_true_iff.
  replace (k - List.length (characters s)) with 0 by (unfold length in Hk; lia).
  reflexivity.
Qed.

(** X4: from the fifth code unit on, the validator only looks at each code
    unit by itself: a string of at least four code units followed by more
    is accepted exactly when the string itself is accepted, every added code
    unit is an ASCII letter, a digit or '-', and the whole has at most 100
    code units. *)
Theorem accepted_tag_extension :
  forall (s : AtomString) (extra : list UChar),
    4 <= length s ->
    (isValidBCP47LanguageTag (append s extra) = true <->
     isValidBCP47LanguageTag s = true
     /\ forallb suffixCharOk extra = true
     /\ length s + List.length extra <= 100).
Proof.
  intros s extra H4.
  rewrite !isValidBCP47LanguageTag_iff.
  unfold simplifiedBCP47Grammar, grandfatheredPrefix.
  rewrite length_append, !charAt_append by lia.
  rewrite !suffixFrom_append by lia.
  split.
  - intros (Hlen & H0 & Hcases). split; [|split].
    + split; [lia|]. split; [exact H0|].
      destruct Hcases as [(H2 & _) | [(_ & Hg & Hs & _) | (_ & Hng & H1 & _ & Hx)]].
      * lia.
      * right; left. split; [lia|]. split; assumption.
      * right; right. split; [lia|]. split; [exact Hng|]. split; [exact H1|].
        split; [intros; lia|]. intros _.
        destruct Hx as [(Ha & Hd & Hs & _) | (Hd & Hs & _)]; [lia | left | right]; auto.
    + destruct Hcases as [(H2 & _) | [(_ & _ & _ & He) | (_ & _ & _ & _ & Hx)]].
      * lia.
      * exact He.
      * destruct Hx as [(_ & _ & _ & He) | (_ & _ & He)]; [lia | exact He | exact He].
    + lia.
  - intros ((Hlen & H0 & Hcases) & He & Htotal).
    split; [lia|]. split; [exact H0|].
    destruct Hcases as [(H2 & _) | [(_ & Hg & Hs) | (_ & Hng & H1 & _ & Hx)]].
    + lia.
    + right; left. split; [lia|]. split; [exact Hg|]. split; assumption.
    + right; right. split; [lia|]. split; [exact Hng|]. split; [exact H1|].
      split; [intros; lia|]. intros _.
      destruct Hx as [(Ha & Hd & Hs) | (Hd & Hs)]; [lia | left | right]; auto.
Qed.

Lemma accepted_tag_extension_witness :
  isValidBCP47LanguageTag (append (literal "en-US") (lit "-x-twain")) = true <->
  isValidBCP47LanguageTag (literal "en-US") = true
  /\ forallb suffixCharOk (lit "-x-twain") = true
  /\ length (literal "en-US") + List.length (lit "-x-twain") <= 100.
Proof.
  apply (accepted_tag_extension (literal "en-US") (lit "-x-twain")).
  vm_compute. lia.
Defined.

(** ** Further properties of the track operations *)

Lemma setLanguage_track t language p :
  fst (setLanguage t language p) =
  set_m_validBCP47Language (set_m_language t language)
    (if isEmpty language || isValidBCP47LanguageTag language
     then language else emptyAtom).
Proof.
  unfold setLanguage, setLanguageWith, scriptExecutionContext.
  destruct (isEmpty language || isValidBCP47LanguageTag language); [reflexivity|].
  simpl. destruct (m_scriptExecutionContext t); reflexivity.
Qed.

Lemma setLanguage_process t language p :
  snd (setLanguage t language p) =
  {| s_uniqueId := s_uniqueId p; nullLogger := nullLogger p;
     consoleMessages :=
       consoleMessages p ++
       match scriptExecutionContext t with
       | Some context =>
           if isEmpty language || isValidBCP47LanguageTag language then []
           else [mkConsoleMessage context Rendering Warning
                   (if contains language 0%Z
                    then nullCharacterMessage
                    else invalidLanguageMessage language)]
       | None => []
       end |}.
Proof.
  unfold setLanguage, setLanguageWith, scriptExecutionContext.
  destruct (isEmpty language || isValidBCP47LanguageTag language); simpl.
  - destruct (m_scriptExecutionContext t); rewrite app_nil_r; destruct p; reflexivity.
  - destruct (m_scriptExecutionContext t); simpl; [reflexivity|].
    rewrite app_nil_r. destruct p; reflexivity.
Qed.

(** X5: setLanguage never removes or reorders console messages and never
    touches the id counter or the shared logger; it adds at most one message,
    a Rendering warning for the track's own context, and it adds one exactly
    when the argument is non-empty, rejected by the validator, and a context
    is attached. *)
Theorem setLanguage_diagnostics :
  forall t language p,
    let r := setLanguage t language p in
    exists added : list ConsoleMessage,
      consoleMessages (snd r) = consoleMessages p ++ added
      /\ List.length added <= 1
      /\ Forall (fun m => messageSource m = Rendering
                          /\ messageLevel m = Warning
                          /\ scriptExecutionContext t = Some (messageContext m)) added
      /\ (added <> [] <->
          isEmpty language = false
          /\ isValidBCP47LanguageTag language = false
          /\ scriptExecutionContext t <> None)
      /\ s_uniqueId (snd r) = s_uniqueId p
      /\ nullLogger (snd r) = nullLogger p.
Proof.
  intros t language p r. subst r. rewrite setLanguage_process. simpl.
  assert (Hnone :
    isEmpty language || isValidBCP47LanguageTag language = true
    \/ scriptExecutionContext t = None ->
    exists added : list ConsoleMessage,
      consoleMessages p ++ [] = consoleMessages p ++ added
      /\ List.length added <= 1
      /\ Forall (fun m => messageSource m = Rendering
                          /\ messageLevel m = Warning
                          /\ scriptExecutionContext t = Some (messageContext m)) added
      /\ (added <> [] <->
          isEmpty language = false
          /\ isValidBCP47LanguageTag language = false
          /\ scriptExecutionContext t <> None)
      /\ s_uniqueId p = s_uniqueId p
      /\ nullLogger p = nullLogger p).
  { intros Hcase. exists []. split; [reflexivity|]. split; [simpl; lia|].
    split; [constructor|]. split; [|split; reflexivity].
    split; [intros Hne; congruence|]. intros (He & Hv & Hc).
    destruct Hcase as [Hor|Hno]; [|contradiction].
    rewrite He, Hv in Hor. discriminate. }
  destruct (scriptExecutionContext t) as [context|] eqn:Hc;
    [|apply Hnone; right; reflexivity].
  destruct (isEmpty language || isValidBCP47LanguageTag language) eqn:Hor;
    [apply Hnone; left; reflexivity|].
  apply orb_false_iff in Hor. destruct Hor as (He & Hv).
  eexists. split; [reflexivity|]. split; [simpl; lia|].
  split; [constructor; [repeat split | constructor]|].
  split; [|split; reflexivity].
  split; [intros _; repeat split; [assumption | assumption | discriminate]
         | intros _; discriminate].
Qed.

(** X6: the track after two calls of setLanguage is the track after the
    second call alone, whatever the process states: the last language set
    decides both language fields, and nothing else of the track changes. *)
Theorem setLanguage_last_wins :
  forall t language1 language2 p1 p2 p3,
    fst (setLanguage (fst (setLanguage t language1 p1)) language2 p2)
    = fst (setLanguage t language2 p3).
Proof.
  intros. rewrite !setLanguage_track. destruct t. reflexivity.
Qed.

Lemma isEmpty_characters (s : AtomString) : isEmpty s = true -> characters s = [].
Proof.
  unfold isEmpty, length. intros H. apply Nat.eqb_eq in H.
  destruct (characters s); [reflexivity | discriminate].
Qed.

Lemma isEmpty_not_valid (s : AtomString) :
  isEmpty s = true -> isValidBCP47LanguageTag s = false.
Proof.
  intros H. destruct (isValidBCP47LanguageTag s) eqn:Hv; [|reflexivity].
  rewrite (isValidBCP47LanguageTag_nonempty s Hv) in H. discriminate.
Qed.

Lemma setLanguage_validated t language p :
  characters (m_validBCP47Language (fst (setLanguage t language p))) =
  if isValidBCP47LanguageTag language then characters language else [].
Proof.
  rewrite setLanguage_track. simpl.
  destruct (isEmpty language) eqn:He; simpl.
  - rewrite (isEmpty_not_valid _ He). apply isEmpty_characters, He.
  - destruct (isValidBCP47LanguageTag language); reflexivity.
Qed.

Lemma newTrackBase_validated context type id trackId label language p :
  characters (m_validBCP47Language
                (fst (newTrackBase context type id trackId label language p))) =
  if isValidBCP47LanguageTag language then characters language else [].
Proof.
  rewrite newTrackBase_eq. simpl.
  destruct (isValidBCP47LanguageTag language); reflexivity.
Qed.

(** X7: in every track that the constructor and the mutators can produce,
    the validated language is determined by the raw language: it has the
    code units of the raw language when the validator accepts that, and none
    otherwise. *)
Theorem reachable_validated_language :
  forall t,
    Reachable t ->
    characters (m_validBCP47Language t) =
    if isValidBCP47LanguageTag (m_language t) then characters (m_language t) else [].
Proof.
  intros t Hreach.
  induction Hreach as [c ty i tid l lang p | t lang p Hr IH | t l p Hr IH
                       | t p Hr IH | t c p Hr IH].
  - rewrite newTrackBase_validated. rewrite newTrackBase_eq. reflexivity.
  - rewrite setLanguage_validated. rewrite setLanguage_track. reflexivity.
  - exact IH.
  - exact IH.
  - exact IH.
Qed.

Lemma reachable_validated_language_witness :
  let t := fst (clearTrackList
                  (fst (setLanguage (sampleTrack (Some 1)) (literal "pt_BR")
                          initialProcess))
                  initialProcess) in
  characters (m_validBCP47Language t) =
  if isValidBCP47LanguageTag (m_language t) then characters (m_language t) else [].
Proof.
  intros t. apply reachable_validated_language.
  apply reach_clearTrackList, reach_setLanguage, reach_new.
Defined.

(** X8: the constructor and setLanguage agree on what a language gives: the
    same raw language, and validated languages with the same code units. *)
Theorem constructor_agrees_with_setLanguage :
  forall context type id trackId label language p t p',
    let constructed := fst (newTrackBase context type id trackId label language p) in
    let assigned := fst (setLanguage t language p') in
    m_language constructed = m_language assigned
    /\ characters (m_validBCP47Language constructed)
       = characters (m_validBCP47Language assigned).
Proof.
  intros. subst constructed assigned.
  rewrite newTrackBase_validated, setLanguage_validated.
  rewrite newTrackBase_eq, setLanguage_track. split; reflexivity.
Qed.

Lemma chr_inj (a b : ascii) : chr a = chr b -> a = b.
Proof.
  unfold chr. intros H. apply N2Z.inj in H.
  rewrite <- (ascii_N_embedding a), <- (ascii_N_embedding b), H. reflexivity.
Qed.

Lemma lit_inj (s1 : string) : forall s2, lit s1 = lit s2 -> s1 = s2.
Proof.
  induction s1 as [|a s1 IH]; intros [|b s2] H; simpl in H;
    try discriminate; [reflexivity|].
  injection H as Hc Hrest. apply chr_inj in Hc. apply IH in Hrest.
  subst. reflexivity.
Qed.

Lemma to_uint_nonnil (n : N) : N.to_uint n <> Decimal.Nil.
Proof.
  destruct n as [|q]; simpl; [discriminate | apply DecimalPos.Unsigned.to_uint_nonnil].
Qed.

Lemma number_inj (n1 n2 : N) : number n1 = number n2 -> n1 = n2.
Proof.
  unfold number, literal. intros H. injection H as H. apply lit_inj in H.
  apply DecimalN.Unsigned.to_uint_inj.
  pose proof (NilZero.usu _ (to_uint_nonnil n1)) as H1.
  pose proof (NilZero.usu _ (to_uint_nonnil n2)) as H2.
  rewrite H in H1. rewrite H1 in H2. injection H2 as H2. exact H2.
Qed.

(** X9: two tracks constructed without an explicit id have the same id
    exactly when they were given the same track identifier, whatever the
    other arguments and the process states. *)
Theorem derived_id_identifies_trackId :
  forall context1 type1 trackId1 label1 language1 p1
         context2 type2 trackId2 label2 language2 p2,
    m_id (fst (newTrackBase context1 type1 None trackId1 label1 language1 p1))
    = m_id (fst (newTrackBase context2 type2 None trackId2 label2 language2 p2))
    <-> trackId1 = trackId2.
Proof.
  intros. rewrite !newTrackBase_eq. simpl. split.
  - apply number_inj.
  - intros ->. reflexivity.
Qed.

(** X10: no sequence of calls of setLanguage, setTrackList, clearTrackList
    and didMoveToNewDocument changes the track's unique id, id, track
    identifier, type, label or logger. *)
Theorem mutators_keep_identity :
  forall t t',
    Mutated t t' ->
    m_uniqueId t' = m_uniqueId t
    /\ m_id t' = m_id t
    /\ m_trackId t' = m_trackId t
    /\ m_type t' = m_type t
    /\ m_label t' = m_label t
    /\ m_logger t' = m_logger t.
Proof.
  intros t t' Hm.
  induction Hm as [t | t t' lang p Hm IH | t t' l p Hm IH | t t' p Hm IH
                   | t t' c p Hm IH].
  - repeat split.
  - rewrite setLanguage_track. exact IH.
  - exact IH.
  - exact IH.
  - exact IH.
Qed.

Lemma mutators_keep_identity_witness :
  let t := sampleTrack (Some 1) in
  let t' := fst (setLanguage
                   (fst (didMoveToNewDocument
                           (fst (setTrackList t 4 initialProcess)) 2 initialProcess))
                   (literal "fr-CA") initialProcess) in
  m_uniqueId t' = 1%Z /\ m_id t' = literal "7" /\ m_language t' = literal "fr-CA".
Proof.
  intros t t'.
  assert (Hm : Mutated t t').
  { apply mutated_setLanguage, mutated_didMoveToNewDocument, mutated_setTrackList,
      mutated_none. }
  destruct (mutators_keep_identity t t' Hm) as (Hu & Hi & _).
  split; [exact Hu|]. split; [exact Hi | reflexivity].
Defined.

(** X11: the opaque root of a track follows its track list: after
    setTrackList(L) it is the root of L, so all tracks of one list share a
    root, and a track just constructed or after clearTrackList() is its own
    root. *)
Theorem opaqueRoot_follows_trackList :
  forall (listOpaqueRoot : TrackListBase -> WebCoreOpaqueRoot)
         (this other : Address) (t u : TrackBase) (L : TrackListBase) p q,
    opaqueRoot listOpaqueRoot this (fst (setTrackList t L p)) = listOpaqueRoot L
    /\ opaqueRoot listOpaqueRoot this (fst (setTrackList t L p))
       = opaqueRoot listOpaqueRoot other (fst (setTrackList u L q))
    /\ opaqueRoot listOpaqueRoot this (fst (clearTrackList (fst (setTrackList t L p)) q))
       = mkWebCoreOpaqueRoot this
    /\ (forall context type id trackId label language,
          opaqueRoot listOpaqueRoot this
            (fst (newTrackBase context type id trackId label language p))
          = mkWebCoreOpaqueRoot this).
Proof.
  intros. repeat split. intros. rewrite newTrackBase_eq. reflexivity.
Qed.

Lemma constructAll_logger args :
  forall p,
    Forall (fun t => m_logger t =
                     Some (match nullLogger p with
                           | Some logger => logger
                           | None => mkLogger false
                           end))
           (fst (constructAll args p))
    /\ nullLogger (snd (constructAll args p)) =
       match args with
       | [] => nullLogger p
       | _ :: _ => Some (match nullLogger p with
                         | Some logger => logger
                         | None => mkLogger false
                         end)
       end.
Proof.
  induction args as [|a rest IH]; intros p.
  - simpl. split; [constructor | reflexivity].
  - rewrite constructAll_cons. cbn [fst snd].
    destruct (IH (snd (construct a p))) as (IHall & IHlogger).
    unfold construct in *. rewrite newTrackBase_eq in *. cbn [fst snd nullLogger] in *.
    split.
    + constructor; [reflexivity | exact IHall].
    + rewrite IHlogger. destruct rest; reflexivity.
Qed.

(** X12: the logger of the constructor is made at most once per process:
    every track of a sequence of constructions holds the same logger, the one
    the process already had or else a disabled one made by the first
    construction, and that is the process's logger afterwards. *)
Theorem constructed_tracks_share_logger :
  forall args p,
    let r := constructAll args p in
    let logger := match nullLogger p with
                  | Some logger => logger
                  | None => mkLogger false
                  end in
    Forall (fun t => m_logger t = Some logger) (fst r)
    /\ nullLogger (snd r) = match args with
                            | [] => nullLogger p
                            | _ :: _ => Some logger
                            end.
Proof. intros args p. exact (constructAll_logger args p). Qed.

(** X13: after didMoveToNewDocument the diagnostics of setLanguage go to the
    context document of the new document: a non-empty rejected language
    posts exactly one warning there. *)
Theorem diagnostics_follow_document :
  forall t contextDocument language p p',
    isEmpty language = false ->
    isValidBCP47LanguageTag language = false ->
    consoleMessages
      (snd (setLanguage (fst (didMoveToNewDocument t contextDocument p)) language p'))
    = consoleMessages p' ++
      [mkConsoleMessage contextDocument Rendering Warning
         (if contains language 0%Z
          then nullCharacterMessage
          else invalidLanguageMessage language)].
Proof.
  intros t d language p p' He Hv.
  rewrite setLanguage_process. simpl. rewrite He, Hv. reflexivity.
Qed.

Lemma diagnostics_follow_document_witness :
  consoleMessages
    (snd (setLanguage (fst (didMoveToNewDocument (sampleTrack (Some 1)) 2 initialProcess))
            (literal "en_US") initialProcess))
  = [mkConsoleMessage 2 Rendering Warning
       (literal "The language 'en_US' is not a valid BCP 47 language tag.")].
Proof.
  exact (diagnostics_follow_document (sampleTrack (Some 1)) 2 (literal "en_US")
           initialProcess initialProcess eq_refl eq_refl).
Defined.
